(** * TableMongo.query: lazy queries and their compilation to filter documents

    A shallow embedding of [TableMongo/query.py]: the logic operators [AND]
    and [OR] with their memoised [bson] method, and the [Query] class
    ([filter], [fetch], [count], [get], [iter]).

    Python objects that are mutated after construction live in an explicit
    store.  The only mutable attribute of the module is [_bson] of a logic
    operator, so the store maps the identity of a logic operator to the
    document currently held by its [_bson] attribute.

    The children of an operator are comparison units, [AND] / [OR] operators
    and objects that are neither; an instance of the base class
    [LogicOperator] itself (it has no [bson] method) is not represented.
    [Property._pack] and [Key.get] are taken to return a value.  *)

From Stdlib Require Import ZArith.
From stdpp Require Import gmap strings list fin_maps.

Set Warnings "-register-all".
Local Open Scope string_scope.
Local Open Scope list_scope.

(** ** Exceptions and results *)

(** A [Property] instance is known to this module by its identity only: it is
    a key of [attr_map] and the receiver of [_pack]. *)
Definition Property : Type := nat.

Inductive Exception : Type :=
  | KeyError (p : Property)          (* attr_map[partialquery.property] *)
  | AttributeError (name : string)   (* a missing attribute of an object *)
  | IndexError.                      (* cursor[0] on an exhausted cursor *)

Inductive Result (A : Type) : Type :=
  | Ok (a : A)
  | Raise (e : Exception).
Arguments Ok {A} a.
Arguments Raise {A} e.

(** ** Model classes *)

(** [vars(modelcls)] in iteration order; each class attribute either is a
    [Property] instance or is not ([isinstance(val, Property)]). *)
Inductive ClassAttr : Type :=
  | IsProperty (p : Property)
  | NotProperty.

Record Model : Type := {
  model_name : string;
  model_vars : list (string * ClassAttr)
}.

(** Lines 196-201 and 261-266: the loop that fills [attr_map]. *)
Definition attr_map (modelcls : Model) : gmap Property string :=
  foldl (fun am entry =>
           match entry.2 with
           | IsProperty val => <[val := entry.1]> am
           | NotProperty => am
           end) ∅ (model_vars modelcls).

(** One round of the loop that fills [attr_map]. *)
Definition attr_step (am : gmap Property string) (entry : string * ClassAttr)
    : gmap Property string :=
  match entry.2 with
  | IsProperty val => <[val := entry.1]> am
  | NotProperty => am
  end.

(** [Key(model, id)], from [.key]. *)
Record Key : Type := {
  key_model : Model;
  key_id : string
}.

Inductive LogicKind : Type := AND | OR.

Definition combinator (kind : LogicKind) : string :=
  match kind with AND => "$and" | OR => "$or" end.

Section TableMongo.

Context {Value Entity ObjectId : Type}.

(** [Property._pack], from [.properties]. *)
Variable _pack : Property -> Value -> Value.

(** ** Filter documents *)

Inductive Bson : Type :=
  | BDoc (items : list (string * Bson))   (* a dict, in insertion order *)
  | BArr (elems : list Bson)              (* a list *)
  | BVal (v : Value).                     (* a packed value *)

(** Truth value of a document, as tested by [if self._bson:]. *)
Definition truthy (b : Bson) : bool :=
  match b with
  | BDoc [] => false
  | BArr [] => false
  | _ => true
  end.

(** ** Logic operators *)

Record PropertyQuery : Type := {
  property : Property;
  operator : string;
  value : Value
}.

(** A logic operator carries its object identity [oid]; its
    [_partialqueries] tuple never changes after [__init__].  An argument of
    [AND(...)] / [OR(...)] is a [PropertyQuery], a [LogicOperator] or any
    other object. *)
Inductive LogicOperator : Type :=
  | Node (oid : nat) (kind : LogicKind) (_partialqueries : list Partial)
with Partial : Type :=
  | PQ (q : PropertyQuery)
  | LO (n : LogicOperator)
  | Other.

Definition oid_of (n : LogicOperator) : nat :=
  match n with Node oid _ _ => oid end.
Definition kind_of (n : LogicOperator) : LogicKind :=
  match n with Node _ kind _ => kind end.
Definition partialqueries_of (n : LogicOperator) : list Partial :=
  match n with Node _ _ ps => ps end.

(** [{ '$and': and_query }] / [{ '$or': or_query }]. *)
Definition combined (kind : LogicKind) (query : list Bson) : Bson :=
  BDoc [(combinator kind, BArr query)].

(** The dict appended for a property query (lines 208-212, 273-277). *)
Definition fragment (name : string) (q : PropertyQuery) : Bson :=
  BDoc [(name, BDoc [(operator q, BVal (_pack (property q) (value q)))])].

(** The [_bson] attribute of the operator [oid], when it is truthy. *)
Definition cached (σ : gmap nat Bson) (oid : nat) : option Bson :=
  match σ !! oid with
  | Some b => if truthy b then Some b else None
  | None => None
  end.

(** The loop of lines 206-214 (271-279).  [query] is the list
    [and_query] / [or_query]; it is the list inside the dict held by
    [self._bson], so every append is visible in the store at [oid]. *)
Fixpoint bson_loop (rec : LogicOperator -> gmap nat Bson -> Result Bson * gmap nat Bson)
    (am : gmap Property string) (oid : nat) (kind : LogicKind)
    (pending : list Partial) (query : list Bson) (σ : gmap nat Bson)
    : Result Bson * gmap nat Bson :=
  match pending with
  | [] => (Ok (combined kind query), σ)
  | PQ q :: rest =>
      match am !! property q with
      | Some name =>
          let query' := query ++ [fragment name q] in
          bson_loop rec am oid kind rest query' (<[oid := combined kind query']> σ)
      | None => (Raise (KeyError (property q)), σ)
      end
  | LO child :: rest =>
      match rec child σ with
      | (Ok b, σ') =>
          let query' := query ++ [b] in
          bson_loop rec am oid kind rest query' (<[oid := combined kind query']> σ')
      | (Raise e, σ') => (Raise e, σ')
      end
  | Other :: rest => bson_loop rec am oid kind rest query σ
  end.

(** [AND.bson] and [OR.bson]: the two methods differ in the combinator
    only. *)
Fixpoint bson (self : LogicOperator) (modelcls : Model) (σ : gmap nat Bson)
    : Result Bson * gmap nat Bson :=
  match self with
  | Node oid kind partialqueries =>
      match partialqueries with
      | [] => (Ok (BDoc []), σ)
      | _ :: _ =>
          match cached σ oid with
          | Some b => (Ok b, σ)
          | None =>
              bson_loop (fun child => bson child modelcls) (attr_map modelcls)
                oid kind partialqueries [] (<[oid := combined kind []]> σ)
          end
      end
  end.

(** ** The compiled filter, as the specification describes it *)

(** The specification's reading of compilation, without any cache: a node
    without children gives the match-all document; otherwise every child
    contributes one fragment, in child order: a comparison unit gives
    [{field: {operator: packed}}] with the field name the schema declares
    for its property, a nested logic node gives its own compilation.
    There is no document for a child of another type or for a property the
    schema does not declare. *)
Fixpoint spec_bson (am : gmap Property string) (n : LogicOperator) : option Bson :=
  match n with
  | Node _ kind partialqueries =>
      match partialqueries with
      | [] => Some (BDoc [])
      | _ :: _ => combined kind <$> mapM (spec_partial am) partialqueries
      end
  end
with spec_partial (am : gmap Property string) (p : Partial) : option Bson :=
  match p with
  | PQ q => (fun name => fragment name q) <$> am !! property q
  | LO child => spec_bson am child
  | Other => None
  end.

(** The native filter document of the specification, written out key by
    key: [{ "$and": [fragment, ...] }] or [{ "$or": [fragment, ...] }], where
    the fragment of a comparison unit is
    [{ fieldName: { operator: packedValue } }] and the fragment of a nested
    logic node is its own document; the empty document for a node without
    children. *)
Fixpoint filter_document (am : gmap Property string) (n : LogicOperator)
    : option Bson :=
  match n with
  | Node _ kind partialqueries =>
      match partialqueries with
      | [] => Some (BDoc [])
      | _ :: _ =>
          (fun frags =>
             BDoc [(match kind with AND => "$and" | OR => "$or" end, BArr frags)])
            <$> mapM (filter_fragment am) partialqueries
      end
  end
with filter_fragment (am : gmap Property string) (p : Partial) : option Bson :=
  match p with
  | PQ q =>
      (fun name =>
         BDoc [(name, BDoc [(operator q, BVal (_pack (property q) (value q)))])])
        <$> am !! property q
  | LO child => filter_document am child
  | Other => None
  end.

(** Every child, at every depth, is a comparison unit whose property the
    schema declares, or a logic node. *)
Fixpoint declared (am : gmap Property string) (n : LogicOperator) : bool :=
  match n with
  | Node _ _ partialqueries => forallb (declared_partial am) partialqueries
  end
with declared_partial (am : gmap Property string) (p : Partial) : bool :=
  match p with
  | PQ q => bool_decide (is_Some (am !! property q))
  | LO child => declared am child
  | Other => false
  end.

(** The logic operators reachable from [n], [n] included. *)
Fixpoint operators (n : LogicOperator) : list LogicOperator :=
  match n with
  | Node _ _ partialqueries => n :: flat_map operators_partial partialqueries
  end
with operators_partial (p : Partial) : list LogicOperator :=
  match p with
  | LO child => operators child
  | _ => []
  end.

Fixpoint size (n : LogicOperator) : nat :=
  match n with
  | Node _ _ partialqueries => S (list_sum (map size_partial partialqueries))
  end
with size_partial (p : Partial) : nat :=
  match p with
  | LO child => size child
  | _ => 0
  end.

(** Identities denote objects: two reachable operators with the same
    identity are the same operator (one object passed in twice). *)
Definition sharing_consistent (n : LogicOperator) : Prop :=
  forall a b, a ∈ operators n -> b ∈ operators n ->
              oid_of a = oid_of b -> a = b.

(** Induction on an operator with the hypothesis for every nested operator
    among its children. *)
Fixpoint LogicOperator_nested_ind (P : LogicOperator -> Prop)
    (HNode : forall oid kind (ps : list Partial),
        Forall (fun p => match p with LO c => P c | _ => True end) ps ->
        P (Node oid kind ps))
    (n : LogicOperator) : P n :=
  match n with
  | Node oid kind ps =>
      HNode oid kind ps
        ((fix children (l : list Partial)
            : Forall (fun p => match p with LO c => P c | _ => True end) l :=
            match l with
            | [] => @List.Forall_nil _ _
            | p :: l' =>
                @List.Forall_cons _ _ p l'
                  (match p as p0
                         return match p0 with LO c => P c | _ => True end with
                   | LO c => LogicOperator_nested_ind P HNode c
                   | _ => I
                   end)
                  (children l')
            end) ps)
  end.

(** Every truthy cache entry of an operator of [S] is the compilation the
    specification gives for it against the schema [am]. *)
Definition coherent (am : gmap Property string)
    (S : LogicOperator -> Prop) (σ : gmap nat Bson) : Prop :=
  forall m b, S m -> partialqueries_of m ≠ [] ->
              cached σ (oid_of m) = Some b -> spec_bson am m = Some b.

(** The comparison units reachable from [n], in loop order. *)
Fixpoint queries (n : LogicOperator) : list PropertyQuery :=
  match n with
  | Node _ _ partialqueries => flat_map queries_partial partialqueries
  end
with queries_partial (p : Partial) : list PropertyQuery :=
  match p with
  | PQ q => [q]
  | LO child => queries child
  | Other => []
  end.

(** The children for which the loop of [bson] appends a fragment: the two
    [isinstance] tests of lines 207/213 (272/278). *)
Definition appends (p : Partial) : bool :=
  match p with
  | Other => false
  | _ => true
  end.

(** Every operator of [S] with a truthy cache entry has only comparison
    units whose property the schema [am] binds. *)
Definition sound (am : gmap Property string)
    (S : LogicOperator -> Prop) (σ : gmap nat Bson) : Prop :=
  forall m b, S m -> partialqueries_of m ≠ [] ->
              cached σ (oid_of m) = Some b ->
              forall q, q ∈ queries m -> is_Some (am !! property q).

(** ** The storage cursor *)

Record Document : Type := { _id : ObjectId }.

(** [str(document['_id'])]. *)
Variable str : ObjectId -> string.

(** [Key.get], from [.key]: one resolution round trip. *)
Variable Key_get : Key -> Entity.

(** [model._collection().find(bson, projection={'_id': 1})]: the matched
    documents, in match order. *)
Variable find : Model -> Bson -> list Document.

(** Modelled from the spec: the cursor object returned by the storage
    collaborator (the driver is not part of this repository).  It supports
    "slicing by half-open integer range, total-count query, and forward
    iteration"; a cursor is the sequence of matched documents, a slice keeps
    the positions [i] with [start <= i < stop]. *)
Definition cursor_slice (cursor : list Document) (start stop : Z) : list Document :=
  take (Z.to_nat (stop - Z.max 0 start)) (drop (Z.to_nat start) cursor).

(** Modelled from the spec: the total-count query of the cursor. *)
Definition cursor_count (cursor : list Document) : Z :=
  Z.of_nat (length cursor).

(** Modelled from the spec: [cursor[i]], the document at position [i] of
    the match-ordered result set. *)
Definition cursor_getitem (cursor : list Document) (i : Z) : Result Document :=
  if (i <? 0)%Z then Raise IndexError
  else match cursor !! Z.to_nat i with
       | Some document => Ok document
       | None => Raise IndexError
       end.

(** ** Query *)

(** The instance attributes set by [Query.__init__]. *)
Record Query : Type := {
  _model : Model;
  _logic_chain : LogicOperator;
  _query : list Document
}.

(** [Query.__init__] with [Query._query] (lines 22-49). *)
Definition Query_init (model : Model) (logic_chain : LogicOperator)
    (σ : gmap nat Bson) : Result Query * gmap nat Bson :=
  match bson logic_chain model σ with
  | (Ok b, σ') =>
      (Ok {| _model := model; _logic_chain := logic_chain;
             _query := find model b |}, σ')
  | (Raise e, σ') => (Raise e, σ')
  end.

(** Attribute lookup on a [Query] instance: the instance dictionary first,
    then the names bound in the class body (the class defines no
    [__getattr__]; the names inherited from [object] all have the form
    [__name__] and are left out). *)
Inductive Attr : Type :=
  | AModel (m : Model)
  | ALogic (n : LogicOperator)
  | ACursor (c : list Document)
  | AMethod (name : string).

Definition Query_dict (self : Query) : list (string * Attr) :=
  [("_model", AModel (_model self));
   ("_logic_chain", ALogic (_logic_chain self));
   ("_query", ACursor (_query self))].

Definition Query_class : list string :=
  ["__init__"; "_query"; "filter"; "fetch"; "count"; "get"; "order";
   "__iter__"; "iter"].

Fixpoint lookup_attr (name : string) (d : list (string * Attr)) : option Attr :=
  match d with
  | [] => None
  | (k, v) :: d' => if String.eqb k name then Some v else lookup_attr name d'
  end.

Definition getattr (self : Query) (name : string) : Result Attr :=
  match lookup_attr name (Query_dict self) with
  | Some v => Ok v
  | None =>
      if existsb (String.eqb name) Query_class then Ok (AMethod name)
      else Raise (AttributeError name)
  end.

(** An object passed to [AND(...)], as the loop of [bson] classifies it. *)
Definition as_partial (a : Attr) : Partial :=
  match a with
  | ALogic n => LO n
  | _ => Other
  end.

(** Objects are allocated with increasing identities. *)
Record Heap : Type := {
  caches : gmap nat Bson;
  next_oid : nat
}.

(** A call of the [AND] constructor: a new object whose [_bson] is
    [None]. *)
Definition new_AND (partialqueries : list Partial) (h : Heap) : LogicOperator * Heap :=
  (Node (next_oid h) AND partialqueries,
   {| caches := delete (next_oid h) (caches h); next_oid := S (next_oid h) |}).

(** [Query.filter] (lines 51-65). *)
Definition filter (self : Query) (args : list Partial) (h : Heap)
    : Result Query * Heap :=
  match getattr self "logic_chain" with
  | Raise e => (Raise e, h)
  | Ok chain =>
      let (new_login_chain, h1) := new_AND (as_partial chain :: args) h in
      match Query_init (_model self) new_login_chain (caches h1) with
      | (r, σ') => (r, {| caches := σ'; next_oid := next_oid h1 |})
      end
  end.

(** What a query hands out: a [Key] or a resolved entity. *)
Inductive Item : Type :=
  | IKey (k : Key)
  | IEntity (e : Entity).

Definition make_key (model : Model) (document : Document) : Key :=
  {| key_model := model; key_id := str (_id document) |}.

(** The value handed out for one matched document. *)
Definition as_item (model : Model) (keys_only : bool) (document : Document) : Item :=
  if keys_only then IKey (make_key model document)
  else IEntity (Key_get (make_key model document)).

(** [Query.fetch] (lines 67-82). *)
Definition fetch (self : Query) (offset count : Z) (keys_only : bool) : list Item :=
  let subsection := cursor_slice (_query self) offset (offset + count) in
  if keys_only then
    map (fun document => IKey (make_key (_model self) document)) subsection
  else
    map (fun document => IEntity (Key_get (make_key (_model self) document))) subsection.

(** [Query.count] (lines 84-93). *)
Definition count (self : Query) : Z := cursor_count (_query self).

(** [Query.get] (lines 95-112); [None] is Python's [None]. *)
Definition get (self : Query) (keys_only : bool) : Result (option Item) :=
  if (count self =? 0)%Z then Ok None
  else match cursor_getitem (_query self) 0 with
       | Raise e => Raise e
       | Ok document =>
           let key := make_key (_model self) document in
           if keys_only then Ok (Some (IKey key))
           else Ok (Some (IEntity (Key_get key)))
       end.

(** [Query.iter] (lines 131-146): the sequence of values the generator
    yields.  The [yield key] of line 145 is followed by the [yield] of
    line 146 in the same iteration. *)
Definition iter (self : Query) (keys_only : bool) : list Item :=
  flat_map (fun document =>
              let key := make_key (_model self) document in
              (if keys_only then [IKey key] else [])
                ++ [IEntity (Key_get key)])
           (_query self).

End TableMongo.

(** ** A small schema to run the definitions on *)

Module Sample.

Definition pack (p : Property) (v : string) : string := "packed:" +:+ v.

Definition str (i : nat) : string := String (Ascii.ascii_of_nat (48 + i)) "".

Definition resolve (k : Key) : string := "entity " +:+ key_id k.

Definition User : Model :=
  {| model_name := "User";
     model_vars := [("__module__", NotProperty); ("email", IsProperty 1);
                    ("age", IsProperty 2)] |}.

Definition Account : Model :=
  {| model_name := "Account";
     model_vars := [("mail", IsProperty 1); ("years", IsProperty 2);
                    ("score", IsProperty 3)] |}.

Definition cmp1 : @PropertyQuery string :=
  {| property := 1; operator := "$eq"; value := "john@doe.com" |}.
Definition cmp2 : @PropertyQuery string :=
  {| property := 2; operator := "$lt"; value := "25" |}.
Definition cmp3 : @PropertyQuery string :=
  {| property := 3; operator := "$gt"; value := "7" |}.

Definition documents (n : nat) : list (@Document nat) :=
  map (fun i => {| _id := i |}) (seq 0 n).

Definition find (m : Model) (b : @Bson string) : list (@Document nat) :=
  if String.eqb (model_name m) "User" then documents 10 else [].

(** A query on [User] that matches [n] documents. *)
Definition matching (n : nat) : @Query string nat :=
  {| _model := User; _logic_chain := Node 0 AND []; _query := documents n |}.

(** [AND(cmp1, OR(cmp2, cmp3))]. *)
Definition nested : @LogicOperator string :=
  Node 0 AND [PQ cmp1; LO (Node 1 OR [PQ cmp2; PQ cmp3])].

(** [AND(cmp1, cmp3)]. *)
Definition flat : @LogicOperator string :=
  Node 0 AND [PQ cmp1; PQ cmp3].

(** [AND(cmp1, cmp2)], its filter against [User], and the store that holds
    that filter as the [_bson] of the operator. *)
Definition both : @LogicOperator string :=
  Node 0 AND [PQ cmp1; PQ cmp2].

Definition both_User : @Bson string :=
  BDoc [("$and",
         BArr [BDoc [("email", BDoc [("$eq", BVal "packed:john@doe.com")])];
               BDoc [("age", BDoc [("$lt", BVal "packed:25")])]])].

Definition both_Account : @Bson string :=
  BDoc [("$and",
         BArr [BDoc [("mail", BDoc [("$eq", BVal "packed:john@doe.com")])];
               BDoc [("years", BDoc [("$lt", BVal "packed:25")])]])].

Definition after_both : gmap nat (@Bson string) := {[ 0 := both_User ]}.

(** The filter of [nested] against [Account]. *)
Definition nested_Account : @Bson string :=
  BDoc [("$and",
         BArr [BDoc [("mail", BDoc [("$eq", BVal "packed:john@doe.com")])];
               BDoc [("$or",
                      BArr [BDoc [("years", BDoc [("$lt", BVal "packed:25")])];
                            BDoc [("score", BDoc [("$gt", BVal "packed:7")])]])]])].

(** What is left of [flat] against [User], where property 3 is unbound. *)
Definition flat_partial : @Bson string :=
  BDoc [("$and",
         BArr [BDoc [("email", BDoc [("$eq", BVal "packed:john@doe.com")])]])].

Definition key (i : nat) : Key := {| key_model := User; key_id := str i |}.

(** A collection whose matches depend on the filter: it matches as many
    documents as the combinator of the filter has fragments. *)
Definition find_sized (m : Model) (b : @Bson string) : list (@Document nat) :=
  match b with
  | BDoc [(_, BArr frags)] => documents (length frags)
  | _ => documents 10
  end.

(** [OR(cmp2)] with its filter against [Account], and [AND(cmp1, OR(cmp2))]
    with its filter document for [User]. *)
Definition older : @LogicOperator string :=
  Node 1 OR [PQ cmp2].

Definition older_Account : @Bson string :=
  BDoc [("$or", BArr [BDoc [("years", BDoc [("$lt", BVal "packed:25")])]])].

Definition newer : @LogicOperator string :=
  Node 0 AND [PQ cmp1; LO older].

Definition newer_User : @Bson string :=
  BDoc [("$and",
         BArr [BDoc [("email", BDoc [("$eq", BVal "packed:john@doe.com")])];
               BDoc [("$or",
                      BArr [BDoc [("age", BDoc [("$lt", BVal "packed:25")])]])]])].

Definition newer_stale : @Bson string :=
  BDoc [("$and",
         BArr [BDoc [("email", BDoc [("$eq", BVal "packed:john@doe.com")])];
               older_Account])].

(** A class that binds property 1 twice. *)
Definition Rebound : Model :=
  {| model_name := "Rebound";
     model_vars := [("old", IsProperty 1); ("helper", NotProperty);
                    ("new", IsProperty 1)] |}.

(** [OR(cmp2, cmp3)], the nested operator of [nested], and its filter
    against [Account]. *)
Definition inner : @LogicOperator string :=
  Node 1 OR [PQ cmp2; PQ cmp3].

Definition inner_Account : @Bson string :=
  BDoc [("$or",
         BArr [BDoc [("years", BDoc [("$lt", BVal "packed:25")])];
               BDoc [("score", BDoc [("$gt", BVal "packed:7")])]])].

End Sample.

(** * Properties *)

Section Properties.

Context {Value Entity ObjectId : Type}.
Variable _pack : Property -> Value -> Value.
Variable str : ObjectId -> string.
Variable Key_get : Key -> Entity.
Variable find : Model -> @Bson Value -> list (@Document ObjectId).

Implicit Types (σ : gmap nat (@Bson Value)) (n : @LogicOperator Value)
  (p : @Partial Value) (self : @Query Value ObjectId).

(** ** The childless operator *)

(** C6: for every model, [AND()] and [OR()] compile to the empty document
    (the match-all filter), not to a document holding an empty ["$and"] or
    ["$or"] array; the store is left as it was. *)
Theorem bson_no_children (modelcls : Model) (oid : nat) (kind : LogicKind) σ :
  bson _pack (Node oid kind []) modelcls σ = (Ok (BDoc []), σ).
Proof. reflexivity. Qed.

(** ** Memoisation *)

Lemma cached_insert_eq σ (oid : nat) (kind : LogicKind) (query : list (@Bson Value)) :
  cached (<[oid := combined kind query]> σ) oid = Some (combined kind query).
Proof. unfold cached. by rewrite lookup_insert_eq. Qed.

Lemma cached_insert_ne σ (i j : nat) (b : @Bson Value) :
  i ≠ j -> cached (<[i := b]> σ) j = cached σ j.
Proof. intros Hne. unfold cached. by rewrite lookup_insert_ne. Qed.

(** While the loop runs, [self._bson] is the dict around the list under
    construction; a loop that returns leaves its result in the cache. *)
Lemma bson_loop_caches_result rec am (oid : nat) (kind : LogicKind)
    (pending : list (@Partial Value)) :
  forall (query : list (@Bson Value)) σ r σ',
    cached σ oid = Some (combined kind query) ->
    bson_loop _pack rec am oid kind pending query σ = (Ok r, σ') ->
    cached σ' oid = Some r.
Proof.
  induction pending as [|p rest IH]; intros query σ r σ' Hinv Hrun; simpl in Hrun.
  - by inversion Hrun; subst.
  - destruct p as [q|child|].
    + destruct (am !! property q) as [name|]; [|discriminate].
      eapply IH; [|exact Hrun]. apply cached_insert_eq.
    + destruct (rec child σ) as [[b|e] σ1]; [|discriminate].
      eapply IH; [|exact Hrun]. apply cached_insert_eq.
    + eapply IH; eauto.
Qed.

(** One call of [bson] on an operator with children, without unfolding the
    loop. *)
Lemma bson_unfold (modelcls : Model) (oid : nat) (kind : LogicKind) p
    (rest : list (@Partial Value)) σ :
  bson _pack (Node oid kind (p :: rest)) modelcls σ =
  match cached σ oid with
  | Some b => (Ok b, σ)
  | None =>
      bson_loop _pack (fun child => bson _pack child modelcls)
        (attr_map modelcls) oid kind (p :: rest) []
        (<[oid := combined kind []]> σ)
  end.
Proof. reflexivity. Qed.

(** ** Children that are neither comparison units nor logic operators *)

Lemma bson_loop_skips_other rec am (oid : nat) (kind : LogicKind)
    (before after : list (@Partial Value)) :
  forall (query : list (@Bson Value)) σ,
    bson_loop _pack rec am oid kind (before ++ Other :: after) query σ =
    bson_loop _pack rec am oid kind (before ++ after) query σ.
Proof.
  induction before as [|p before IH]; intros query σ; [reflexivity|].
  destruct p as [q|child|]; simpl.
  - destruct (am !! property q); [apply IH | reflexivity].
  - destruct (rec child σ) as [[b|e] σ1]; [apply IH | reflexivity].
  - apply IH.
Qed.

Lemma bson_loop_only_other rec am (oid : nat) (kind : LogicKind)
    (pending : list (@Partial Value)) (query : list (@Bson Value)) σ :
  Forall (fun p => p = Other) pending ->
  bson_loop _pack rec am oid kind pending query σ = (Ok (combined kind query), σ).
Proof.
  induction 1 as [|p rest Hp _ IH]; [reflexivity|]. subst p. exact IH.
Qed.

(** C10: a child that is neither a [PropertyQuery] nor a [LogicOperator]
    is skipped: the call behaves (result and store) exactly as on the
    operator without that child, so it adds neither an error nor a
    fragment; an operator all of whose children are of that sort compiles
    without error to the combinator over an empty array. *)
Theorem bson_skips_other (modelcls : Model) (oid : nat) (kind : LogicKind)
    (before after others : list (@Partial Value)) σ :
  (before ++ after ≠ [] ->
   bson _pack (Node oid kind (before ++ Other :: after)) modelcls σ =
   bson _pack (Node oid kind (before ++ after)) modelcls σ) /\
  (others ≠ [] -> Forall (fun p => p = Other) others -> cached σ oid = None ->
   bson _pack (Node oid kind others) modelcls σ =
   (Ok (combined kind []), <[oid := combined kind []]> σ)).
Proof.
  split.
  - intros Hne.
    destruct (before ++ after) as [|p0 rest0] eqn:Hba; [done|].
    destruct (before ++ Other :: after) as [|p1 rest1] eqn:Hboa.
    { by destruct before. }
    rewrite !bson_unfold. destruct (cached σ oid); [reflexivity|].
    rewrite <- Hba, <- Hboa. apply bson_loop_skips_other.
  - intros Hne Hall Hc.
    destruct others as [|p rest]; [done|].
    rewrite bson_unfold, Hc. by apply bson_loop_only_other.
Qed.

(** ** A failed compilation *)

(** A truthy cache entry is never overwritten by the nested calls of the
    loop, and the loop keeps the entry of its own operator truthy, also when
    it raises. *)
Lemma bson_loop_keeps_cached rec am (oid : nat) (kind : LogicKind)
    (pending : list (@Partial Value)) :
  (forall child, LO child ∈ pending ->
     forall σ j b, cached σ j = Some b -> cached (rec child σ).2 j = Some b) ->
  forall (query : list (@Bson Value)) σ j b,
    j ≠ oid -> cached σ j = Some b ->
    cached (bson_loop _pack rec am oid kind pending query σ).2 j = Some b.
Proof.
  induction pending as [|p rest IH]; intros Hrec query σ j b Hj Hc; [done|].
  assert (Hrest : forall child, LO child ∈ rest ->
            forall σ j b, cached σ j = Some b -> cached (rec child σ).2 j = Some b).
  { intros child Hin. apply Hrec. by apply list_elem_of_further. }
  destruct p as [q|child|]; simpl.
  - destruct (am !! property q); [|done].
    apply IH; [done..|]. by rewrite cached_insert_ne.
  - pose proof (Hrec child (list_elem_of_here _ _) σ j b Hc) as Hchild.
    destruct (rec child σ) as [[f|e] σ1]; [|done].
    apply IH; [done..|]. by rewrite cached_insert_ne.
  - by apply IH.
Qed.

Lemma bson_loop_own_cache rec am (oid : nat) (kind : LogicKind)
    (pending : list (@Partial Value)) :
  (forall child, LO child ∈ pending ->
     forall σ j b, cached σ j = Some b -> cached (rec child σ).2 j = Some b) ->
  forall (query : list (@Bson Value)) σ,
    cached σ oid = Some (combined kind query) ->
    exists partial,
      cached (bson_loop _pack rec am oid kind pending query σ).2 oid
        = Some (combined kind partial).
Proof.
  induction pending as [|p rest IH]; intros Hrec query σ Hc; [by exists query|].
  assert (Hrest : forall child, LO child ∈ rest ->
            forall σ j b, cached σ j = Some b -> cached (rec child σ).2 j = Some b).
  { intros child Hin. apply Hrec. by apply list_elem_of_further. }
  destruct p as [q|child|]; simpl.
  - destruct (am !! property q); [|by exists query].
    apply IH; [done|]. apply cached_insert_eq.
  - pose proof (Hrec child (list_elem_of_here _ _) σ oid _ Hc) as Hchild.
    destruct (rec child σ) as [[f|e] σ1]; [|by exists query].
    apply IH; [done|]. apply cached_insert_eq.
  - by apply IH.
Qed.

Lemma bson_keeps_cached (modelcls : Model) n :
  forall σ (j : nat) (b : @Bson Value),
    cached σ j = Some b -> cached (bson _pack n modelcls σ).2 j = Some b.
Proof.
  induction n as [oid kind ps IH] using LogicOperator_nested_ind.
  intros σ j b Hc. destruct ps as [|p rest]; [done|].
  rewrite bson_unfold. destruct (cached σ oid) as [b0|] eqn:Hoid; [done|].
  assert (j ≠ oid) as Hj by congruence.
  apply bson_loop_keeps_cached; [|done|by rewrite cached_insert_ne].
  intros child Hin. rewrite Forall_forall in IH. exact (IH _ Hin).
Qed.

(** The only exception of the loop is the [KeyError] of a property that the
    schema does not bind. *)
Lemma bson_loop_raises rec am (oid : nat) (kind : LogicKind)
    (pending : list (@Partial Value)) :
  (forall child, LO child ∈ pending ->
     forall σ e σ', rec child σ = (Raise e, σ') ->
       exists prop, e = KeyError prop /\ am !! prop = None) ->
  forall (query : list (@Bson Value)) σ e σ',
    bson_loop _pack rec am oid kind pending query σ = (Raise e, σ') ->
    exists prop, e = KeyError prop /\ am !! prop = None.
Proof.
  induction pending as [|p rest IH]; intros Hrec query σ e σ' Hrun; [done|].
  assert (Hrest : forall child, LO child ∈ rest ->
            forall σ e σ', rec child σ = (Raise e, σ') ->
              exists prop, e = KeyError prop /\ am !! prop = None).
  { intros child Hin. apply Hrec. by apply list_elem_of_further. }
  destruct p as [q|child|]; simpl in Hrun.
  - destruct (am !! property q) eqn:Hq; [by eapply IH|].
    inversion Hrun; subst. by exists (property q).
  - destruct (rec child σ) as [[f|e0] σ1] eqn:Hchild; [by eapply IH|].
    inversion Hrun; subst. eapply Hrec; [apply list_elem_of_here|done].
  - by eapply IH.
Qed.

Lemma bson_raises (modelcls : Model) n :
  forall σ e σ',
    bson _pack n modelcls σ = (Raise e, σ') ->
    exists prop, e = KeyError prop /\ attr_map modelcls !! prop = None.
Proof.
  induction n as [oid kind ps IH] using LogicOperator_nested_ind.
  intros σ e σ' Hrun. destruct ps as [|p rest]; [done|].
  rewrite bson_unfold in Hrun. destruct (cached σ oid); [done|].
  eapply bson_loop_raises; [|exact Hrun].
  intros child Hin. rewrite Forall_forall in IH. exact (IH _ Hin).
Qed.

(** C5: a call that fails raises the [KeyError] of a property the model
    does not declare, but it is not atomic: [self._bson] was assigned before
    the loop, so after the failure the cache of the operator holds the
    filter built so far, and the next call (against any model) returns that
    half-built filter without raising. *)
Theorem bson_failure_is_cached (M M' : Model) (oid : nat) (kind : LogicKind)
    (partialqueries : list (@Partial Value)) σ e σ' :
  bson _pack (Node oid kind partialqueries) M σ = (Raise e, σ') ->
  (exists prop, e = KeyError prop /\ attr_map M !! prop = None) /\
  cached σ oid = None /\
  exists partial,
    σ' !! oid = Some (combined kind partial) /\
    bson _pack (Node oid kind partialqueries) M' σ'
      = (Ok (combined kind partial), σ').
Proof.
  intros Hrun. split; [by eapply bson_raises|].
  destruct partialqueries as [|p rest]; [done|].
  rewrite bson_unfold in Hrun.
  destruct (cached σ oid) as [b0|] eqn:Hoid; [done|]. split; [done|].
  destruct (bson_loop_own_cache (fun child => bson _pack child M) (attr_map M)
              oid kind (p :: rest)) with (query := @nil (@Bson Value))
              (σ := <[oid := combined kind []]> σ) as [partial Hpartial].
  - intros child _. apply bson_keeps_cached.
  - apply cached_insert_eq.
  - rewrite Hrun in Hpartial. simpl in Hpartial. exists partial. split.
    + unfold cached in Hpartial. destruct (σ' !! oid) as [b1|]; [|done].
      destruct (truthy b1); [done|discriminate].
    + rewrite bson_unfold. by rewrite Hpartial.
Qed.

(** ** Query.filter *)

(** C2: [filter] reads [self.logic_chain]; [__init__] stores the chain as
    [_logic_chain], so the call raises [AttributeError] for every query and
    every argument list, and no new query is built. *)
Theorem filter_raises self (args : list (@Partial Value)) (h : @Heap Value) :
  filter _pack find self args h = (Raise (AttributeError "logic_chain"), h).
Proof. reflexivity. Qed.

(** ** Query.iter *)

(** C4: with [keys_only] the generator yields, for every matched document,
    its key and then the resolved entity as well: two values per document.
    Without [keys_only] it yields the resolved entity of every document. *)
Theorem iter_keys_only_yields_entities_too self :
  iter str Key_get self true =
    flat_map (fun document =>
                [as_item str Key_get (_model self) true document;
                 as_item str Key_get (_model self) false document])
             (_query self) /\
  length (iter str Key_get self true) = 2 * length (_query self) /\
  iter str Key_get self false =
    map (as_item str Key_get (_model self) false) (_query self).
Proof.
  unfold iter. split; [reflexivity|]. split.
  - induction (_query self) as [|d docs IH]; [reflexivity|].
    cbn [flat_map app length] in *. rewrite IH. lia.
  - induction (_query self) as [|d docs IH]; [reflexivity|].
    cbn [flat_map app map] in *. by rewrite IH.
Qed.

(** ** Query.fetch *)

Lemma cursor_slice_window (cursor : list (@Document ObjectId)) (offset count : Z) :
  (0 <= offset)%Z -> (0 <= count)%Z ->
  cursor_slice cursor offset (offset + count) =
  take (Z.to_nat count) (drop (Z.to_nat offset) cursor).
Proof.
  intros Ho Hc. unfold cursor_slice.
  replace (offset + count - Z.max 0 offset)%Z with count by lia. reflexivity.
Qed.

Lemma fetch_map self (offset count : Z) (keys_only : bool) :
  fetch str Key_get self offset count keys_only =
  map (as_item str Key_get (_model self) keys_only)
      (cursor_slice (_query self) offset (offset + count)).
Proof. unfold fetch, as_item. by destruct keys_only. Qed.

(** C7: for non-negative [offset] and [count], [fetch] returns a list (it
    has no failing path) made of the documents at the positions of the
    window [offset, offset + count) of the result set, cut off at its end:
    position [i < count] of the list comes from the document at position
    [offset + i] when there is one, and there is nothing else.  Under
    [keys_only] an item is the key [Key(model, str(document['_id']))] of the
    query's model, otherwise it is what [get()] of that key resolves to. *)
Theorem fetch_window self (offset count : Z) (keys_only : bool) :
  (0 <= offset)%Z -> (0 <= count)%Z ->
  fetch str Key_get self offset count keys_only
    = map (fun document =>
             if keys_only
             then IKey {| key_model := _model self;
                          key_id := str (_id document) |}
             else IEntity (Key_get {| key_model := _model self;
                                      key_id := str (_id document) |}))
          (take (Z.to_nat count) (drop (Z.to_nat offset) (_query self))) /\
  (forall i : nat,
      fetch str Key_get self offset count keys_only !! i =
      if decide (i < Z.to_nat count)
      then (fun document =>
              if keys_only
              then IKey {| key_model := _model self;
                           key_id := str (_id document) |}
              else IEntity (Key_get {| key_model := _model self;
                                       key_id := str (_id document) |}))
             <$> _query self !! (Z.to_nat offset + i)
      else None) /\
  length (fetch str Key_get self offset count keys_only) =
    Z.to_nat count `min` (length (_query self) - Z.to_nat offset).
Proof.
  intros Ho Hc.
  assert (Hmap : fetch str Key_get self offset count keys_only
                 = map (fun document =>
                          if keys_only
                          then IKey {| key_model := _model self;
                                       key_id := str (_id document) |}
                          else IEntity (Key_get {| key_model := _model self;
                                                   key_id := str (_id document) |}))
                       (take (Z.to_nat count) (drop (Z.to_nat offset) (_query self)))).
  { unfold fetch. rewrite cursor_slice_window by done. by destruct keys_only. }
  split; [exact Hmap|]. rewrite Hmap. split.
  - intros i.
    change (map ?f ?l) with (f <$> l).
    rewrite list_lookup_fmap. case_decide as Hi.
    + by rewrite lookup_take_lt, lookup_drop.
    + rewrite lookup_take_ge by lia. reflexivity.
  - by rewrite length_map, length_take, length_drop.
Qed.

(** C9: [fetch()] with the defaults [offset=0, count=0] returns the empty
    list, whatever the query matches (and whatever [keys_only] is). *)
Theorem fetch_defaults_empty self (keys_only : bool) :
  fetch str Key_get self 0 0 keys_only = [].
Proof. rewrite fetch_map. reflexivity. Qed.

(** ** Query.get *)

(** C8: on a query that matches no document [get] returns [None] and does
    not raise; on a query that matches [first :: others] it returns the
    item of [first] (its key under [keys_only], its resolved entity
    otherwise), whatever [others] is. *)
Theorem get_first_or_none (model : Model) (chain : @LogicOperator Value)
    (first : @Document ObjectId) (others : list (@Document ObjectId))
    (keys_only : bool) :
  get str Key_get
      {| _model := model; _logic_chain := chain; _query := [] |} keys_only
    = Ok None /\
  get str Key_get
      {| _model := model; _logic_chain := chain; _query := first :: others |}
      keys_only
    = Ok (Some (as_item str Key_get model keys_only first)).
Proof.
  split; [reflexivity|].
  unfold get, count, cursor_count, as_item; simpl _query; simpl _model.
  destruct (Z.of_nat (length (first :: others)) =? 0)%Z eqn:E.
  - apply Z.eqb_eq in E. simpl in E. lia.
  - by destruct keys_only.
Qed.

(** ** Structure of a first compilation *)

Lemma operators_self n : n ∈ operators n.
Proof. destruct n. simpl. apply list_elem_of_here. Qed.

Lemma operators_child (oid : nat) (kind : LogicKind) (ps : list (@Partial Value))
    (child m : @LogicOperator Value) :
  LO child ∈ ps -> m ∈ operators child -> m ∈ operators (Node oid kind ps).
Proof.
  intros Hc Hm. simpl. apply list_elem_of_further.
  apply list_elem_of_In, in_flat_map. exists (LO child).
  split; by apply list_elem_of_In.
Qed.

Lemma size_child (oid : nat) (kind : LogicKind) (ps : list (@Partial Value))
    (child : @LogicOperator Value) :
  LO child ∈ ps -> size child < size (Node oid kind ps).
Proof.
  intros Hc. cbn [size]. apply Nat.lt_succ_r.
  induction ps as [|p ps IH]; [by apply elem_of_nil in Hc|].
  cbn [map list_sum fold_right].
  apply elem_of_cons in Hc as [<-|Hc]; [cbn [size_partial]; lia|].
  specialize (IH Hc). unfold list_sum in IH. lia.
Qed.

Lemma operators_size (n m : @LogicOperator Value) :
  m ∈ operators n -> size m <= size n.
Proof.
  revert m. induction n as [oid kind ps IH] using LogicOperator_nested_ind.
  intros m Hm. simpl in Hm. apply elem_of_cons in Hm as [->|Hm]; [done|].
  apply list_elem_of_In, in_flat_map in Hm as (p & Hp & Hm).
  apply list_elem_of_In in Hp, Hm.
  destruct p as [q|child|]; simpl in Hm; [by apply elem_of_nil in Hm| |by apply elem_of_nil in Hm].
  rewrite Forall_forall in IH. specialize (IH _ Hp m Hm). simpl in IH.
  pose proof (size_child oid kind ps child Hp). lia.
Qed.

(** An operator is not reachable from one of its own children. *)
Lemma operators_child_neq (oid : nat) (kind : LogicKind) (ps : list (@Partial Value))
    (child m : @LogicOperator Value) :
  LO child ∈ ps -> m ∈ operators child -> m ≠ Node oid kind ps.
Proof.
  intros Hc Hm ->. apply operators_size in Hm.
  pose proof (size_child oid kind ps child Hc). lia.
Qed.

Lemma coherent_insert am (S : @LogicOperator Value -> Prop) σ (oid : nat)
    (b : @Bson Value) :
  (forall m, S m -> oid_of m ≠ oid) ->
  coherent _pack am S σ -> coherent _pack am S (<[oid := b]> σ).
Proof.
  intros Hoid Hcoh m b' Hm Hne Hc. apply Hcoh; [done..|].
  by rewrite cached_insert_ne in Hc by (intros E; by apply (Hoid m)).
Qed.

Lemma spec_bson_unfold am (oid : nat) (kind : LogicKind) p
    (rest : list (@Partial Value)) :
  spec_bson _pack am (Node oid kind (p :: rest)) =
  combined kind <$> mapM (spec_partial _pack am) (p :: rest).
Proof. reflexivity. Qed.

(** The loop on a coherent store: when every nested call returns the
    specified document of the child and keeps the store coherent, the loop
    appends the specified fragments of the pending children in order. *)
Lemma bson_loop_coherent rec am (oid : nat) (kind : LogicKind)
    (S : @LogicOperator Value -> Prop) (pending : list (@Partial Value)) :
  (forall m, S m -> oid_of m ≠ oid) ->
  (forall child σ0 f, LO child ∈ pending -> coherent _pack am S σ0 ->
      spec_bson _pack am child = Some f ->
      exists σ1, rec child σ0 = (Ok f, σ1) /\ coherent _pack am S σ1) ->
  forall (query frags : list (@Bson Value)) σ,
    coherent _pack am S σ ->
    mapM (spec_partial _pack am) pending = Some frags ->
    exists σ',
      bson_loop _pack rec am oid kind pending query σ
        = (Ok (combined kind (query ++ frags)), σ') /\
      coherent _pack am S σ' /\
      (pending ≠ [] -> cached σ' oid = Some (combined kind (query ++ frags))).
Proof.
  intros Hoid. induction pending as [|p rest IH]; intros Hrec query frags σ Hcoh Hspec.
  - apply mapM_Some, Forall2_nil_inv_l in Hspec as ->. rewrite app_nil_r.
    exists σ. by repeat split.
  - apply mapM_Some, Forall2_cons_inv_l in Hspec as (f & fs & Hf & Hfs & ->).
    apply mapM_Some in Hfs.
    assert (Hrest : forall child σ0 f0, LO child ∈ rest -> coherent _pack am S σ0 ->
              spec_bson _pack am child = Some f0 ->
              exists σ1, rec child σ0 = (Ok f0, σ1) /\ coherent _pack am S σ1).
    { intros child σ0 f0 Hin. apply Hrec. by apply list_elem_of_further. }
    assert (Hnext : forall σ1, coherent _pack am S σ1 ->
              exists σ',
                bson_loop _pack rec am oid kind rest (query ++ [f])
                  (<[oid := combined kind (query ++ [f])]> σ1)
                  = (Ok (combined kind (query ++ f :: fs)), σ') /\
                coherent _pack am S σ' /\
                cached σ' oid = Some (combined kind (query ++ f :: fs))).
    { intros σ1 Hcoh1.
      destruct (IH Hrest (query ++ [f]) fs
                  (<[oid := combined kind (query ++ [f])]> σ1))
        as (σ' & Hrun & Hcoh' & Hc'); [by apply coherent_insert|done|].
      rewrite <- app_assoc in Hrun, Hc'. simpl in Hrun, Hc'.
      exists σ'. split; [done|]. split; [done|].
      destruct rest as [|p' rest'].
      - apply mapM_Some, Forall2_nil_inv_l in Hfs as ->.
        simpl in Hrun. inversion Hrun; subst. apply cached_insert_eq.
      - by apply Hc'. }
    destruct p as [q|child|]; simpl in Hf.
    + destruct (am !! property q) as [name|] eqn:Hname; [|discriminate].
      simpl in Hf. inversion Hf; subst f. simpl. rewrite Hname.
      destruct (Hnext σ Hcoh) as (σ' & Hrun & Hcoh' & Hc'). eauto.
    + destruct (Hrec child σ f) as (σ1 & Hchild & Hcoh1);
        [apply list_elem_of_here|done..|].
      simpl. rewrite Hchild.
      destruct (Hnext σ1 Hcoh1) as (σ' & Hrun & Hcoh' & Hc'). eauto.
    + discriminate.
Qed.

(** Compiling on a coherent store returns the specified document and keeps
    the store coherent, for operators whose identities denote objects. *)
Lemma bson_coherent (modelcls : Model) n :
  forall (S : @LogicOperator Value -> Prop) σ (b : @Bson Value),
    (forall a c, S a -> S c -> oid_of a = oid_of c -> a = c) ->
    (forall m, m ∈ operators n -> S m) ->
    coherent _pack (attr_map modelcls) S σ ->
    spec_bson _pack (attr_map modelcls) n = Some b ->
    exists σ', bson _pack n modelcls σ = (Ok b, σ') /\
               coherent _pack (attr_map modelcls) S σ'.
Proof.
  induction n as [oid kind ps IH] using LogicOperator_nested_ind.
  intros S σ b Hinj Hsub Hcoh Hspec.
  destruct ps as [|p rest].
  { simpl in Hspec. inversion Hspec; subst b. exists σ. by split. }
  rewrite bson_unfold.
  pose proof (Hsub _ (operators_self _)) as Hself.
  destruct (cached σ oid) as [b0|] eqn:Hc.
  { exists σ. split; [|done].
    rewrite (Hcoh (Node oid kind (p :: rest)) b0 Hself) in Hspec by done.
    by inversion Hspec. }
  rewrite spec_bson_unfold in Hspec.
  destruct (mapM (spec_partial _pack (attr_map modelcls)) (p :: rest))
    as [frags|] eqn:Hfrags; [|discriminate].
  simpl in Hspec. inversion Hspec; subst b. clear Hspec.
  set (S' := fun m => S m /\ oid_of m ≠ oid).
  destruct (bson_loop_coherent (fun child => bson _pack child modelcls)
              (attr_map modelcls) oid kind S' (p :: rest)) with
    (query := @nil (@Bson Value)) (frags := frags)
    (σ := <[oid := combined kind []]> σ)
    as (σ' & Hrun & Hcoh' & Hc').
  - by intros m [_ Hm].
  - intros child σ0 f Hin Hcoh0 Hf.
    rewrite Forall_forall in IH. apply (IH _ Hin S' σ0 f); [| |done..].
    + intros a c [Ha _] [Hc0 _]. by apply Hinj.
    + intros m Hm. split.
      * apply Hsub. by eapply operators_child.
      * intros E. eapply (operators_child_neq oid kind (p :: rest)); [done..|].
        apply Hinj; [|done..]. apply Hsub. by eapply operators_child.
  - apply coherent_insert; [by intros m [_ Hm]|].
    intros m b Hm. apply Hcoh, Hm.
  - done.
  - exists σ'. split; [done|].
    intros m b Hm Hne Hcm. destruct (decide (oid_of m = oid)) as [E|E].
    + assert (m = Node oid kind (p :: rest)) as -> by (by apply Hinj).
      simpl in Hcm. rewrite Hc' in Hcm by done. inversion Hcm; subst b.
      rewrite spec_bson_unfold. by rewrite Hfrags.
    + apply Hcoh'; [by split|done..].
Qed.

Lemma declared_spec am n :
  declared am n = true -> is_Some (spec_bson _pack am n).
Proof.
  induction n as [oid kind ps IH] using LogicOperator_nested_ind.
  intros Hd. destruct ps as [|p rest]; [by eexists|].
  rewrite spec_bson_unfold. apply fmap_is_Some, mapM_is_Some_2.
  change (forallb (declared_partial am) (p :: rest) = true) in Hd.
  rewrite forallb_forall in Hd. rewrite Forall_forall in IH.
  apply Forall_forall. intros x Hx.
  specialize (Hd x (proj1 (list_elem_of_In _ _) Hx)). specialize (IH x Hx).
  destruct x as [q|child|]; simpl in *.
  - apply bool_decide_eq_true in Hd. by apply fmap_is_Some.
  - by apply IH.
  - discriminate.
Qed.

Lemma filter_document_spec_bson am n :
  filter_document _pack am n = spec_bson _pack am n.
Proof. reflexivity. Qed.


(** A tree in which every operator object occurs once is a special case of
    consistent sharing. *)
Lemma distinct_oids_consistent n :
  NoDup (oid_of <$> operators n) -> sharing_consistent n.
Proof.
  intros Hnd a b Ha Hb E.
  apply list_elem_of_lookup in Ha as [i Hi], Hb as [j Hj].
  assert (i = j) as ->.
  { eapply NoDup_lookup; [exact Hnd| |].
    - rewrite list_lookup_fmap, Hi. reflexivity.
    - rewrite list_lookup_fmap, Hj. simpl. by rewrite E. }
  congruence.
Qed.

(** ** Memoisation across models *)

(** C1: for an operator with at least one child, (1) when a call against [M1]
    returns [r], a second call returns [r] again, whether it is given [M1]
    once more or any other model [M2]: the cache is looked up by the operator
    alone; (2) a first compilation against [M1] (all properties declared on
    [M1], nothing cached yet) does return: its result is the compilation
    for [M1], and the second call, against [M2], returns that same
    document. *)
Theorem bson_memoized (M1 M2 : Model) (oid : nat) (kind : LogicKind)
    (partialqueries : list (@Partial Value)) σ :
  partialqueries ≠ [] ->
  (forall r σ',
      bson _pack (Node oid kind partialqueries) M1 σ = (Ok r, σ') ->
      bson _pack (Node oid kind partialqueries) M1 σ' = (Ok r, σ') /\
      bson _pack (Node oid kind partialqueries) M2 σ' = (Ok r, σ')) /\
  (declared (attr_map M1) (Node oid kind partialqueries) = true ->
   sharing_consistent (Node oid kind partialqueries) ->
   (forall m, m ∈ operators (Node oid kind partialqueries) -> σ !! oid_of m = None) ->
   exists r σ',
     bson _pack (Node oid kind partialqueries) M1 σ = (Ok r, σ') /\
     spec_bson _pack (attr_map M1) (Node oid kind partialqueries) = Some r /\
     bson _pack (Node oid kind partialqueries) M1 σ' = (Ok r, σ') /\
     bson _pack (Node oid kind partialqueries) M2 σ' = (Ok r, σ')).
Proof.
  intros Hne.
  assert (Hmemo : forall r σ',
             bson _pack (Node oid kind partialqueries) M1 σ = (Ok r, σ') ->
             bson _pack (Node oid kind partialqueries) M1 σ' = (Ok r, σ') /\
             bson _pack (Node oid kind partialqueries) M2 σ' = (Ok r, σ')).
  { intros r σ' Hrun.
    destruct partialqueries as [|p rest]; [done|].
    assert (Hc : cached σ' oid = Some r).
    { rewrite bson_unfold in Hrun.
      destruct (cached σ oid) as [b|] eqn:Hb.
      - by inversion Hrun; subst.
      - eapply bson_loop_caches_result; [|exact Hrun]. apply cached_insert_eq. }
    split; rewrite bson_unfold; by rewrite Hc. }
  split; [exact Hmemo|].
  intros Hd Hshare Hfresh.
  destruct (declared_spec _ _ Hd) as [r Hr].
  destruct (bson_coherent M1 (Node oid kind partialqueries)
              (fun m => m ∈ operators (Node oid kind partialqueries)) σ r)
    as (σ' & Hrun & _); [done|done| |done|].
  { intros m b' Hm _ Hc. unfold cached in Hc. by rewrite (Hfresh m Hm) in Hc. }
  exists r, σ'. destruct (Hmemo r σ' Hrun). by repeat split.
Qed.

(** * Further properties of the module *)

(** ** The attribute map *)

Lemma attr_map_foldl (modelcls : Model) :
  attr_map modelcls = foldl attr_step ∅ (model_vars modelcls).
Proof. reflexivity. Qed.

Lemma attr_step_lookup_ne am (entry : string * ClassAttr) (prop : Property) :
  (forall name, entry ≠ (name, IsProperty prop)) ->
  attr_step am entry !! prop = am !! prop.
Proof.
  intros Hne. destruct entry as [name [val|]]; unfold attr_step; simpl; [|done].
  apply lookup_insert_ne. intros ->. by apply (Hne name).
Qed.

Lemma foldl_attr_step_unbound (vars : list (string * ClassAttr)) (prop : Property) :
  (forall name, (name, IsProperty prop) ∉ vars) ->
  forall am, foldl attr_step am vars !! prop = am !! prop.
Proof.
  induction vars as [|entry vars IH]; intros Hun am; [done|]. simpl.
  rewrite IH.
  - apply attr_step_lookup_ne. intros name ->. apply (Hun name), list_elem_of_here.
  - intros name Hin. apply (Hun name). by apply list_elem_of_further.
Qed.

Lemma foldl_attr_step_None (vars : list (string * ClassAttr)) (prop : Property) :
  forall am,
    foldl attr_step am vars !! prop = None ->
    am !! prop = None /\ forall name, (name, IsProperty prop) ∉ vars.
Proof.
  induction vars as [|entry vars IH]; intros am Hnone.
  - split; [done|]. intros name Hin. by apply elem_of_nil in Hin.
  - simpl in Hnone. apply IH in Hnone as [Hstep Hun].
    destruct entry as [name0 [val|]]; unfold attr_step in Hstep; simpl in Hstep.
    + destruct (decide (val = prop)) as [->|Hne].
      { by rewrite lookup_insert_eq in Hstep. }
      rewrite lookup_insert_ne in Hstep by done. split; [done|].
      intros name [E|Hin]%elem_of_cons; [congruence|by apply (Hun name)].
    + split; [done|].
      intros name [E|Hin]%elem_of_cons; [congruence|by apply (Hun name)].
Qed.

(** X1: [attr_map] resolves a property to the name of the last class
    attribute bound to it (a later binding overwrites an earlier one,
    attributes that are no [Property] are ignored), and it has no entry
    exactly for the properties that no attribute of the class is bound to. *)
Theorem attr_map_last_binding (modelcls : Model) (prop : Property) :
  (forall before after name,
      model_vars modelcls = before ++ (name, IsProperty prop) :: after ->
      (forall name', (name', IsProperty prop) ∉ after) ->
      attr_map modelcls !! prop = Some name) /\
  (attr_map modelcls !! prop = None <->
   forall name, (name, IsProperty prop) ∉ model_vars modelcls).
Proof.
  rewrite attr_map_foldl. split.
  - intros before after name -> Hun.
    rewrite foldl_app. simpl. rewrite foldl_attr_step_unbound by done.
    unfold attr_step. simpl. apply lookup_insert_eq.
  - split.
    + intros Hnone. by apply foldl_attr_step_None in Hnone as [_ Hun].
    + intros Hun. by rewrite foldl_attr_step_unbound.
Qed.

(** ** What a compilation writes *)

Lemma bson_loop_frame rec am (oid : nat) (kind : LogicKind)
    (pending : list (@Partial Value)) (j : nat) :
  j ≠ oid ->
  j ∉ oid_of <$> flat_map operators_partial pending ->
  (forall child, LO child ∈ pending ->
     forall σ, j ∉ oid_of <$> operators child -> (rec child σ).2 !! j = σ !! j) ->
  forall (query : list (@Bson Value)) σ,
    (bson_loop _pack rec am oid kind pending query σ).2 !! j = σ !! j.
Proof.
  intros Hj. induction pending as [|p rest IH]; intros Hout Hrec query σ; [done|].
  simpl in Hout. rewrite fmap_app in Hout. apply not_elem_of_app in Hout as [Hp Hrest].
  assert (Hrec' : forall child, LO child ∈ rest ->
            forall σ, j ∉ oid_of <$> operators child -> (rec child σ).2 !! j = σ !! j).
  { intros child Hin. apply Hrec. by apply list_elem_of_further. }
  destruct p as [q|child|]; simpl.
  - destruct (am !! property q); [|done].
    rewrite IH by done. by apply lookup_insert_ne.
  - pose proof (Hrec child (list_elem_of_here _ _) σ Hp) as Hchild.
    destruct (rec child σ) as [[f|e] σ1]; [|done].
    rewrite IH by done. rewrite lookup_insert_ne by done. exact Hchild.
  - by apply IH.
Qed.

Lemma bson_frame (modelcls : Model) n :
  forall σ (j : nat),
    j ∉ oid_of <$> operators n -> (bson _pack n modelcls σ).2 !! j = σ !! j.
Proof.
  induction n as [oid kind ps IH] using LogicOperator_nested_ind.
  intros σ j Hout. destruct ps as [|p rest]; [done|].
  rewrite bson_unfold. destruct (cached σ oid); [done|].
  cbn [operators] in Hout. rewrite fmap_cons in Hout.
  apply not_elem_of_cons in Hout as [Hj Hout]. simpl in Hj.
  rewrite bson_loop_frame; [by apply lookup_insert_ne|done|done|].
  intros child Hin σ0. rewrite Forall_forall in IH. exact (IH _ Hin σ0 j).
Qed.

(** X2: a call of [bson] writes only to the [_bson] of operators reachable
    from the receiver, and only where no truthy filter was cached: every
    other cache entry, and every truthy one, is the same after the call,
    whether the call returns or raises. *)
Theorem bson_footprint (modelcls : Model) n σ (j : nat) :
  (j ∉ oid_of <$> operators n -> (bson _pack n modelcls σ).2 !! j = σ !! j) /\
  (forall b, cached σ j = Some b -> (bson _pack n modelcls σ).2 !! j = σ !! j).
Proof.
  split; [apply bson_frame|].
  intros b Hc. pose proof (bson_keeps_cached modelcls n σ j b Hc) as Hafter.
  unfold cached in Hc, Hafter.
  destruct (σ !! j) as [b0|]; [|done].
  destruct ((bson _pack n modelcls σ).2 !! j) as [b1|]; [|done].
  destruct (truthy b0); [|done]. destruct (truthy b1); [|done]. congruence.
Qed.

(** ** The fragments of a compilation *)

Lemma bson_unfold_ne (modelcls : Model) (oid : nat) (kind : LogicKind)
    (ps : list (@Partial Value)) σ :
  ps ≠ [] ->
  bson _pack (Node oid kind ps) modelcls σ =
  match cached σ oid with
  | Some b => (Ok b, σ)
  | None =>
      bson_loop _pack (fun child => bson _pack child modelcls)
        (attr_map modelcls) oid kind ps [] (<[oid := combined kind []]> σ)
  end.
Proof. destruct ps; [done|]. intros _. apply bson_unfold. Qed.

(** A loop that returns can be cut at any child: the first part returns the
    fragments of its children, the second part continues from there. *)
Lemma bson_loop_split rec am (oid : nat) (kind : LogicKind)
    (first second : list (@Partial Value)) :
  forall (query : list (@Bson Value)) σ r σ',
    bson_loop _pack rec am oid kind (first ++ second) query σ = (Ok r, σ') ->
    exists frags σm,
      bson_loop _pack rec am oid kind first query σ
        = (Ok (combined kind (query ++ frags)), σm) /\
      length frags = length (List.filter appends first) /\
      bson_loop _pack rec am oid kind second (query ++ frags) σm = (Ok r, σ').
Proof.
  induction first as [|p first IH]; intros query σ r σ' Hrun.
  - exists [], σ. rewrite app_nil_r. by repeat split.
  - assert (Hstep : forall f σ1,
              bson_loop _pack rec am oid kind (first ++ second) (query ++ [f]) σ1
                = (Ok r, σ') ->
              exists frags σm,
                bson_loop _pack rec am oid kind first (query ++ [f]) σ1
                  = (Ok (combined kind (query ++ frags)), σm) /\
                length frags = S (length (List.filter appends first)) /\
                bson_loop _pack rec am oid kind second (query ++ frags) σm
                  = (Ok r, σ')).
    { intros f σ1 Hrun1.
      destruct (IH _ _ _ _ Hrun1) as (frags & σm & Hfirst & Hlen & Hsecond).
      rewrite <- app_assoc in Hfirst, Hsecond. simpl in Hfirst, Hsecond.
      exists (f :: frags), σm. simpl. by rewrite Hlen. }
    destruct p as [q|child|]; simpl in Hrun |- *.
    + destruct (am !! property q) as [name|]; [|discriminate]. by apply Hstep.
    + destruct (rec child σ) as [[f|e] σ1]; [|discriminate]. by apply Hstep.
    + by apply IH.
Qed.

(** X5: a call that builds the filter (nothing truthy cached for the
    receiver) and returns, returns [{combinator: frags}] with exactly one
    fragment for every child that is a comparison unit or a logic operator,
    whatever the caches of the nested operators hold. *)
Theorem bson_fragment_count (modelcls : Model) (oid : nat) (kind : LogicKind)
    (partialqueries : list (@Partial Value)) σ r σ' :
  partialqueries ≠ [] ->
  cached σ oid = None ->
  bson _pack (Node oid kind partialqueries) modelcls σ = (Ok r, σ') ->
  exists frags,
    r = combined kind frags /\
    length frags = length (List.filter appends partialqueries).
Proof.
  intros Hne Hc Hrun. rewrite bson_unfold_ne, Hc in Hrun by done.
  rewrite <- (app_nil_r partialqueries) in Hrun.
  apply bson_loop_split in Hrun as (frags & σm & _ & Hlen & Hend).
  simpl in Hend. inversion Hend; subst. by exists frags.
Qed.


(** ** Query construction *)

Lemma bson_cached_after (modelcls : Model) (oid : nat) (kind : LogicKind)
    (ps : list (@Partial Value)) σ r σ' :
  ps ≠ [] ->
  bson _pack (Node oid kind ps) modelcls σ = (Ok r, σ') ->
  cached σ' oid = Some r.
Proof.
  intros Hne Hrun. rewrite bson_unfold_ne in Hrun by done.
  destruct (cached σ oid) as [b|] eqn:Hb.
  - by inversion Hrun; subst.
  - eapply bson_loop_caches_result; [|exact Hrun]. apply cached_insert_eq.
Qed.


(** A loop that raises stops at one child: the children before it were
    compiled as by a loop over them alone, and the failing child is a
    comparison unit with an unbound property or a nested operator whose own
    call raises. *)
Lemma bson_loop_raise_split rec am (oid : nat) (kind : LogicKind)
    (pending : list (@Partial Value)) :
  forall (query : list (@Bson Value)) σ e σ',
    bson_loop _pack rec am oid kind pending query σ = (Raise e, σ') ->
    exists before failing after frags σm,
      pending = before ++ failing :: after /\
      bson_loop _pack rec am oid kind before query σ
        = (Ok (combined kind (query ++ frags)), σm) /\
      length frags = length (List.filter appends before) /\
      match failing with
      | PQ q => am !! property q = None /\ σ' = σm
      | LO child => rec child σm = (Raise e, σ')
      | Other => False
      end.
Proof.
  induction pending as [|p rest IH]; intros query σ e σ' Hrun; [done|].
  assert (Hstep : forall f σ1,
            bson_loop _pack rec am oid kind rest (query ++ [f]) σ1 = (Raise e, σ') ->
            forall p0, appends p0 = true ->
            (forall before0,
                bson_loop _pack rec am oid kind (p0 :: before0) query σ
                = bson_loop _pack rec am oid kind before0 (query ++ [f]) σ1) ->
            exists before failing after frags σm,
              p0 :: rest = before ++ failing :: after /\
              bson_loop _pack rec am oid kind before query σ
                = (Ok (combined kind (query ++ frags)), σm) /\
              length frags = length (List.filter appends before) /\
              match failing with
              | PQ q => am !! property q = None /\ σ' = σm
              | LO child => rec child σm = (Raise e, σ')
              | Other => False
              end).
  { intros f σ1 Hrun1 p0 Hp0 Hunfold.
    destruct (IH _ _ _ _ Hrun1)
      as (before & failing & after & frags & σm & -> & Hfirst & Hlen & Hfail).
    exists (p0 :: before), failing, after, (f :: frags), σm.
    split; [done|]. split.
    - rewrite Hunfold, Hfirst. by rewrite <- app_assoc.
    - split; [|done]. cbn [List.filter]. rewrite Hp0. simpl. by rewrite Hlen. }
  destruct p as [q|child|]; simpl in Hrun.
  - destruct (am !! property q) as [name|] eqn:Hq.
    + apply (Hstep _ _ Hrun (PQ q)); [done|]. intros before0. simpl. by rewrite Hq.
    + inversion Hrun; subst.
      exists [], (PQ q), rest, [], σ'. rewrite app_nil_r. by repeat split.
  - destruct (rec child σ) as [[f|e0] σ1] eqn:Hchild.
    + apply (Hstep _ _ Hrun (LO child)); [done|].
      intros before0. simpl. by rewrite Hchild.
    + inversion Hrun; subst.
      exists [], (LO child), rest, [], σ. rewrite app_nil_r. by repeat split.
  - destruct (IH _ _ _ _ Hrun)
      as (before & failing & after & frags & σm & -> & Hfirst & Hlen & Hfail).
    by exists (Other :: before), failing, after, frags, σm.
Qed.

(** X8: when constructing a query raises, the chain stopped at one child,
    and its cache keeps the fragments of the children before that child.
    Constructing a query on the same chain again, for any model, does not
    raise: it sends the filter made of exactly those fragments, one for
    every child before the failing one and none for the failing child or a
    later one. *)
Theorem Query_init_after_failure (M M' : Model) (oid : nat) (kind : LogicKind)
    (partialqueries : list (@Partial Value)) σ e σ1 :
  Query_init _pack find M (Node oid kind partialqueries) σ = (Raise e, σ1) ->
  exists before failing after partial σm,
    partialqueries = before ++ failing :: after /\
    appends failing = true /\
    bson_loop _pack (fun child => bson _pack child M) (attr_map M) oid kind
              before [] (<[oid := combined kind []]> σ)
      = (Ok (combined kind partial), σm) /\
    length partial = length (List.filter appends before) /\
    σ1 !! oid = Some (combined kind partial) /\
    Query_init _pack find M' (Node oid kind partialqueries) σ1
      = (Ok {| _model := M'; _logic_chain := Node oid kind partialqueries;
               _query := find M' (combined kind partial) |}, σ1).
Proof.
  intros Hinit. unfold Query_init in *.
  destruct (bson _pack (Node oid kind partialqueries) M σ)
    as [[b|e0] σ0] eqn:Hrun; [discriminate|].
  inversion Hinit; subst. clear Hinit.
  destruct partialqueries as [|p rest]; [done|].
  rewrite bson_unfold in Hrun.
  destruct (cached σ oid) as [b0|] eqn:Hc; [done|].
  apply bson_loop_raise_split in Hrun
    as (before & failing & after & partial & σm & Hps & Hfirst & Hlen & Hfail).
  simpl in Hfirst.
  assert (Hm : cached σm oid = Some (combined kind partial)).
  { eapply bson_loop_caches_result; [|exact Hfirst]. apply cached_insert_eq. }
  assert (H1 : cached σ1 oid = Some (combined kind partial)).
  { destruct failing as [q|child|]; [by destruct Hfail as [_ ->]| |done].
    pose proof (bson_keeps_cached M child σm oid _ Hm) as Hk.
    by rewrite Hfail in Hk. }
  exists before, failing, after, partial, σm.
  split; [done|]. split; [by destruct failing|]. split; [done|]. split; [done|].
  split.
  - unfold cached in H1. destruct (σ1 !! oid) as [b1|]; [|done].
    destruct (truthy b1); [done|discriminate].
  - rewrite bson_unfold. by rewrite H1.
Qed.

(** ** Failing fast on a first compilation *)

Lemma sound_insert am (S : @LogicOperator Value -> Prop) σ (oid : nat)
    (b : @Bson Value) :
  (forall m, S m -> oid_of m ≠ oid) ->
  sound am S σ -> sound am S (<[oid := b]> σ).
Proof.
  intros Hoid Hs m b' Hm Hne Hc. apply (Hs m b'); [done..|].
  by rewrite cached_insert_ne in Hc by (intros E; by apply (Hoid m)).
Qed.

Lemma bson_loop_sound rec am (oid : nat) (kind : LogicKind)
    (S : @LogicOperator Value -> Prop) (pending : list (@Partial Value)) :
  (forall m, S m -> oid_of m ≠ oid) ->
  (forall child σ0 f σ1, LO child ∈ pending -> sound am S σ0 ->
      rec child σ0 = (Ok f, σ1) ->
      (forall q, q ∈ queries child -> is_Some (am !! property q)) /\
      sound am S σ1) ->
  forall (query : list (@Bson Value)) σ r σ',
    sound am S σ ->
    bson_loop _pack rec am oid kind pending query σ = (Ok r, σ') ->
    (forall q, q ∈ flat_map queries_partial pending -> is_Some (am !! property q)) /\
    sound am S σ'.
Proof.
  intros Hoid. induction pending as [|p rest IH]; intros Hrec query σ r σ' Hs Hrun.
  - simpl in Hrun. inversion Hrun; subst. split; [|done].
    intros q Hq. by apply elem_of_nil in Hq.
  - assert (Hrec' : forall child σ0 f σ1, LO child ∈ rest -> sound am S σ0 ->
              rec child σ0 = (Ok f, σ1) ->
              (forall q, q ∈ queries child -> is_Some (am !! property q)) /\
              sound am S σ1).
    { intros child σ0 f σ1 Hin. apply Hrec. by apply list_elem_of_further. }
    destruct p as [q0|child|]; simpl in Hrun.
    + destruct (am !! property q0) as [name|] eqn:Hname; [|discriminate].
      destruct (IH Hrec' _ _ _ _ (sound_insert _ _ _ _ _ Hoid Hs) Hrun)
        as [Hrest Hs'].
      split; [|done]. intros q [->|Hq]%elem_of_cons; [by eexists|by apply Hrest].
    + destruct (rec child σ) as [[f|e] σ1] eqn:Hchild; [|discriminate].
      destruct (Hrec child σ f σ1 (list_elem_of_here _ _) Hs Hchild)
        as [Hq1 Hs1].
      destruct (IH Hrec' _ _ _ _ (sound_insert _ _ _ _ _ Hoid Hs1) Hrun)
        as [Hrest Hs'].
      split; [|done]. simpl.
      intros q [Hq|Hq]%elem_of_app; [by apply Hq1|by apply Hrest].
    + by apply (IH Hrec' query σ r σ').
Qed.

Lemma bson_ok_sound (modelcls : Model) n :
  forall (S : @LogicOperator Value -> Prop) σ (b : @Bson Value) σ',
    (forall a c, S a -> S c -> oid_of a = oid_of c -> a = c) ->
    (forall m, m ∈ operators n -> S m) ->
    sound (attr_map modelcls) S σ ->
    bson _pack n modelcls σ = (Ok b, σ') ->
    (forall q, q ∈ queries n -> is_Some (attr_map modelcls !! property q)) /\
    sound (attr_map modelcls) S σ'.
Proof.
  induction n as [oid kind ps IH] using LogicOperator_nested_ind.
  intros S σ b σ' Hinj Hsub Hs Hrun.
  destruct ps as [|p rest].
  { simpl in Hrun. inversion Hrun; subst. split; [|done].
    intros q Hq. by apply elem_of_nil in Hq. }
  pose proof (Hsub _ (operators_self _)) as Hself.
  rewrite bson_unfold in Hrun.
  destruct (cached σ oid) as [b0|] eqn:Hc.
  { inversion Hrun; subst. split; [|done].
    by apply (Hs (Node oid kind (p :: rest)) b). }
  set (S' := fun m => S m /\ oid_of m ≠ oid).
  destruct (bson_loop_sound (fun child => bson _pack child modelcls)
              (attr_map modelcls) oid kind S' (p :: rest)) with
    (query := @nil (@Bson Value)) (σ := <[oid := combined kind []]> σ)
    (r := b) (σ' := σ') as [Hall Hs'].
  - by intros m [_ Hm].
  - intros child σ0 f σ1 Hin Hs0 Hchild.
    rewrite Forall_forall in IH. apply (IH _ Hin S' σ0 f σ1); [| |done..].
    + intros a c [Ha _] [Hc0 _]. by apply Hinj.
    + intros m Hm. split.
      * apply Hsub. by eapply operators_child.
      * intros E. eapply (operators_child_neq oid kind (p :: rest)); [done..|].
        apply Hinj; [|done..]. apply Hsub. by eapply operators_child.
  - apply sound_insert; [by intros m [_ Hm]|].
    intros m b1 Hm. apply Hs, Hm.
  - done.
  - split; [exact Hall|].
    intros m b1 Hm Hne Hcm. destruct (decide (oid_of m = oid)) as [E|E].
    + assert (m = Node oid kind (p :: rest)) as -> by (by apply Hinj).
      exact Hall.
    + by apply (Hs' m b1).
Qed.

(** X13: a first compilation fails fast: when nothing is cached on the
    operators reachable from the receiver and [bson] returns a filter, the
    model binds the property of every reachable comparison unit.  So with
    one unbound property anywhere in the tree the call raises: it never
    returns a filter that leaves that comparison out. *)
Theorem bson_first_compilation_fails_fast (modelcls : Model) n σ :
  sharing_consistent n ->
  (forall m, m ∈ operators n -> σ !! oid_of m = None) ->
  (forall b σ', bson _pack n modelcls σ = (Ok b, σ') ->
     forall q, q ∈ queries n -> is_Some (attr_map modelcls !! property q)) /\
  (forall q, q ∈ queries n -> attr_map modelcls !! property q = None ->
     exists e σ', bson _pack n modelcls σ = (Raise e, σ')).
Proof.
  intros Hshare Hfresh.
  assert (Hok : forall b σ', bson _pack n modelcls σ = (Ok b, σ') ->
            forall q, q ∈ queries n -> is_Some (attr_map modelcls !! property q)).
  { intros b σ' Hrun.
    apply (bson_ok_sound modelcls n (fun m => m ∈ operators n) σ b σ');
      [done|done| |done].
    intros m b' Hm _ Hc. unfold cached in Hc. by rewrite (Hfresh m Hm) in Hc. }
  split; [exact Hok|].
  intros q Hq Hnone.
  destruct (bson _pack n modelcls σ) as [[b|e] σ'] eqn:Hrun; [|by eexists _, _].
  destruct (Hok b σ' eq_refl q Hq) as [name Hname]. congruence.
Qed.

(** ** One object passed in twice *)


End Properties.

(** * The properties on the sample schema *)

Example both_compiles_per_model :
  (bson Sample.pack Sample.both Sample.User ∅).1 = Ok Sample.both_User /\
  (bson Sample.pack Sample.both Sample.Account ∅).1 = Ok Sample.both_Account.
Proof. split; reflexivity. Qed.

Lemma bson_memoized_witness :
  [PQ Sample.cmp1; PQ Sample.cmp2] ≠ [] /\
  bson Sample.pack Sample.both Sample.User ∅
    = (Ok Sample.both_User, Sample.after_both) /\
  (bson Sample.pack Sample.both Sample.User Sample.after_both
     = (Ok Sample.both_User, Sample.after_both) /\
   bson Sample.pack Sample.both Sample.Account Sample.after_both
     = (Ok Sample.both_User, Sample.after_both)) /\
  declared (attr_map Sample.User) Sample.both = true /\
  sharing_consistent Sample.both /\
  (forall m, m ∈ operators Sample.both ->
             (∅ : gmap nat (@Bson string)) !! oid_of m = None) /\
  exists r σ',
    bson Sample.pack Sample.both Sample.User ∅ = (Ok r, σ') /\
    spec_bson Sample.pack (attr_map Sample.User) Sample.both = Some r /\
    bson Sample.pack Sample.both Sample.User σ' = (Ok r, σ') /\
    bson Sample.pack Sample.both Sample.Account σ' = (Ok r, σ').
Proof.
  assert (Hne : [PQ Sample.cmp1; PQ Sample.cmp2] ≠ []) by discriminate.
  assert (Hrun : bson Sample.pack Sample.both Sample.User ∅
                 = (Ok Sample.both_User, Sample.after_both)) by reflexivity.
  assert (Hd : declared (attr_map Sample.User) Sample.both = true)
    by reflexivity.
  assert (Hs : sharing_consistent Sample.both).
  { apply distinct_oids_consistent. by apply (bool_decide_unpack _). }
  assert (Hf : forall m, m ∈ operators Sample.both ->
                         (∅ : gmap nat (@Bson string)) !! oid_of m = None)
    by (intros m _; apply lookup_empty).
  destruct (bson_memoized Sample.pack Sample.User Sample.Account 0 AND
              [PQ Sample.cmp1; PQ Sample.cmp2] ∅ Hne) as [Hmemo Hfirst].
  split; [exact Hne|]. split; [exact Hrun|].
  split; [exact (Hmemo Sample.both_User Sample.after_both Hrun)|].
  split; [exact Hd|]. split; [exact Hs|]. split; [exact Hf|].
  exact (Hfirst Hd Hs Hf).
Defined.

Example nested_compiles :
  (bson Sample.pack Sample.nested Sample.Account ∅).1 = Ok Sample.nested_Account.
Proof. reflexivity. Qed.



Lemma bson_failure_is_cached_witness :
  bson Sample.pack Sample.flat Sample.User ∅
    = (Raise (KeyError 3), {[ 0 := Sample.flat_partial ]}) /\
  (exists prop, KeyError 3 = KeyError prop /\ attr_map Sample.User !! prop = None) /\
  cached (∅ : gmap nat (@Bson string)) 0 = None /\
  exists partial,
    ({[ 0 := Sample.flat_partial ]} : gmap nat (@Bson string)) !! 0
      = Some (combined AND partial) /\
    bson Sample.pack Sample.flat Sample.Account {[ 0 := Sample.flat_partial ]}
      = (Ok (combined AND partial), {[ 0 := Sample.flat_partial ]}).
Proof.
  assert (Hrun : bson Sample.pack Sample.flat Sample.User ∅
                 = (Raise (KeyError 3), {[ 0 := Sample.flat_partial ]}))
    by reflexivity.
  split; [exact Hrun|].
  exact (bson_failure_is_cached Sample.pack Sample.User Sample.Account 0 AND
           [PQ Sample.cmp1; PQ Sample.cmp3] ∅ (KeyError 3)
           {[ 0 := Sample.flat_partial ]} Hrun).
Defined.

(** The failed call of [flat] against [User], then the same call again. *)
Example flat_fails_then_returns :
  bson Sample.pack Sample.flat Sample.User ∅
    = (Raise (KeyError 3), {[ 0 := Sample.flat_partial ]}) /\
  bson Sample.pack Sample.flat Sample.User {[ 0 := Sample.flat_partial ]}
    = (Ok Sample.flat_partial, {[ 0 := Sample.flat_partial ]}).
Proof. split; reflexivity. Qed.

Lemma bson_skips_other_witness :
  bson Sample.pack (Node 0 AND [PQ Sample.cmp1; Other; PQ Sample.cmp2])
       Sample.User ∅
    = (Ok Sample.both_User, Sample.after_both) /\
  bson Sample.pack (Node 0 OR [Other; Other]) Sample.User ∅
    = (Ok (BDoc [("$or", BArr [])]), {[ 0 := BDoc [("$or", BArr [])] ]}).
Proof.
  destruct (bson_skips_other Sample.pack Sample.User 0 AND
              [PQ Sample.cmp1] [PQ Sample.cmp2] [] ∅) as [Hskip _].
  destruct (bson_skips_other Sample.pack Sample.User 0 OR
              [] [] [Other; Other] ∅) as [_ Honly].
  split.
  - etransitivity; [apply Hskip; discriminate | reflexivity].
  - etransitivity; [apply Honly; [discriminate | repeat constructor | reflexivity]
                   | reflexivity].
Defined.

(** On a query that matches the ten documents with identifiers 0 to 9:
    [fetch(2, 3, True)], [fetch(2, 3)], [fetch(8, 5, True)] and
    [fetch(20, 5, True)]. *)
Lemma fetch_window_witness :
  (0 <= 2)%Z /\ (0 <= 3)%Z /\ (0 <= 8)%Z /\ (0 <= 5)%Z /\ (0 <= 20)%Z /\
  fetch Sample.str Sample.resolve (Sample.matching 10) 2 3 true
    = [IKey {| key_model := Sample.User; key_id := "2" |};
       IKey {| key_model := Sample.User; key_id := "3" |};
       IKey {| key_model := Sample.User; key_id := "4" |}] /\
  fetch Sample.str Sample.resolve (Sample.matching 10) 2 3 false
    = [IEntity "entity 2"; IEntity "entity 3"; IEntity "entity 4"] /\
  fetch Sample.str Sample.resolve (Sample.matching 10) 8 5 true
    = [IKey {| key_model := Sample.User; key_id := "8" |};
       IKey {| key_model := Sample.User; key_id := "9" |}] /\
  fetch Sample.str Sample.resolve (Sample.matching 10) 20 5 true = [].
Proof.
  assert (H2 : (0 <= 2)%Z) by lia.
  assert (H3 : (0 <= 3)%Z) by lia.
  assert (H8 : (0 <= 8)%Z) by lia.
  assert (H5 : (0 <= 5)%Z) by lia.
  assert (H20 : (0 <= 20)%Z) by lia.
  split; [exact H2|]. split; [exact H3|]. split; [exact H8|].
  split; [exact H5|]. split; [exact H20|].
  split; [exact (proj1 (fetch_window Sample.str Sample.resolve
                          (Sample.matching 10) 2 3 true H2 H3))|].
  split; [exact (proj1 (fetch_window Sample.str Sample.resolve
                          (Sample.matching 10) 2 3 false H2 H3))|].
  split; [exact (proj1 (fetch_window Sample.str Sample.resolve
                          (Sample.matching 10) 8 5 true H8 H5))|].
  exact (proj1 (fetch_window Sample.str Sample.resolve
                  (Sample.matching 10) 20 5 true H20 H5)).
Defined.

(** The pagination cases of a query that matches ten documents. *)
Example fetch_pagination :
  fetch Sample.str Sample.resolve (Sample.matching 10) 2 3 true
    = [IKey (Sample.key 2); IKey (Sample.key 3); IKey (Sample.key 4)] /\
  fetch Sample.str Sample.resolve (Sample.matching 10) 2 3 false
    = [IEntity "entity 2"; IEntity "entity 3"; IEntity "entity 4"] /\
  fetch Sample.str Sample.resolve (Sample.matching 10) 8 5 true
    = [IKey (Sample.key 8); IKey (Sample.key 9)] /\
  fetch Sample.str Sample.resolve (Sample.matching 10) 20 5 true = [].
Proof. repeat split; reflexivity. Qed.

Lemma fetch_defaults_empty_witness :
  fetch Sample.str Sample.resolve (Sample.matching 10) 0 0 false = [] /\
  count (Sample.matching 10) = 10%Z.
Proof.
  split; [|reflexivity].
  exact (fetch_defaults_empty Sample.str Sample.resolve (Sample.matching 10) false).
Defined.

Lemma get_first_or_none_witness :
  get Sample.str Sample.resolve (Sample.matching 0) true = Ok None /\
  get Sample.str Sample.resolve (Sample.matching 10) true
    = Ok (Some (IKey (Sample.key 0))) /\
  get Sample.str Sample.resolve (Sample.matching 10) false
    = Ok (Some (IEntity "entity 0")).
Proof.
  destruct (get_first_or_none Sample.str Sample.resolve Sample.User
              (Node 0 AND [] : @LogicOperator string) {| _id := 0 |}
              (map (fun i => {| _id := i |}) (seq 1 9)) true) as [Hnone Hkey].
  destruct (get_first_or_none Sample.str Sample.resolve Sample.User
              (Node 0 AND [] : @LogicOperator string) {| _id := 0 |}
              (map (fun i => {| _id := i |}) (seq 1 9)) false) as [_ Hentity].
  split; [exact Hnone|]. split; [exact Hkey | exact Hentity].
Defined.

Lemma bson_no_children_witness :
  bson Sample.pack (Node 0 AND []) Sample.User ∅ = (Ok (BDoc []), ∅) /\
  bson Sample.pack (Node 0 OR []) Sample.Account Sample.after_both
    = (Ok (BDoc []), Sample.after_both).
Proof.
  split.
  - exact (bson_no_children Sample.pack Sample.User 0 AND ∅).
  - exact (bson_no_children Sample.pack Sample.Account 0 OR Sample.after_both).
Defined.

(** [Query(User, AND(cmp1)).filter(cmp2)]. *)
Lemma filter_raises_witness :
  Query_init Sample.pack Sample.find Sample.User (Node 0 AND [PQ Sample.cmp1]) ∅
    = (Ok {| _model := Sample.User;
             _logic_chain := Node 0 AND [PQ Sample.cmp1];
             _query := Sample.documents 10 |},
       {[ 0 := Sample.flat_partial ]}) /\
  filter Sample.pack Sample.find
         {| _model := Sample.User;
            _logic_chain := Node 0 AND [PQ Sample.cmp1];
            _query := Sample.documents 10 |}
         [PQ Sample.cmp2]
         {| caches := {[ 0 := Sample.flat_partial ]}; next_oid := 1 |}
    = (Raise (AttributeError "logic_chain"),
       {| caches := {[ 0 := Sample.flat_partial ]}; next_oid := 1 |}).
Proof.
  split; [reflexivity|].
  exact (filter_raises Sample.pack Sample.find _ [PQ Sample.cmp2] _).
Defined.

(** Iterating a query that matches two documents with [keys_only=True]. *)
Lemma iter_keys_only_witness :
  iter Sample.str Sample.resolve (Sample.matching 2) true
    = [IKey (Sample.key 0); IEntity "entity 0";
       IKey (Sample.key 1); IEntity "entity 1"] /\
  length (iter Sample.str Sample.resolve (Sample.matching 2) true) = 4 /\
  iter Sample.str Sample.resolve (Sample.matching 2) false
    = [IEntity "entity 0"; IEntity "entity 1"].
Proof.
  exact (iter_keys_only_yields_entities_too Sample.str Sample.resolve
           (Sample.matching 2)).
Defined.

(** * The further properties on the sample schema *)

Lemma attr_map_last_binding_witness :
  model_vars Sample.Rebound
    = [("old", IsProperty 1); ("helper", NotProperty)]
        ++ ("new", IsProperty 1) :: [] /\
  (forall name', (name', IsProperty 1) ∉ ([] : list (string * ClassAttr))) /\
  attr_map Sample.Rebound !! 1 = Some "new" /\
  (forall name, (name, IsProperty 5) ∉ model_vars Sample.Rebound) /\
  attr_map Sample.Rebound !! 5 = None.
Proof.
  assert (Hvars : model_vars Sample.Rebound
                  = [("old", IsProperty 1); ("helper", NotProperty)]
                      ++ ("new", IsProperty 1) :: []) by reflexivity.
  assert (Hafter : forall name',
             (name', IsProperty 1) ∉ ([] : list (string * ClassAttr)))
    by (intros name'; apply not_elem_of_nil).
  assert (Hun : forall name, (name, IsProperty 5) ∉ model_vars Sample.Rebound).
  { intros name Hin. simpl in Hin.
    repeat (apply elem_of_cons in Hin as [Hin|Hin]; [discriminate|]).
    by apply elem_of_nil in Hin. }
  split; [exact Hvars|]. split; [exact Hafter|].
  split; [exact (proj1 (attr_map_last_binding Sample.Rebound 1) _ _ _ Hvars Hafter)|].
  split; [exact Hun|].
  exact (proj2 (proj2 (attr_map_last_binding Sample.Rebound 5)) Hun).
Defined.

Lemma bson_footprint_witness :
  (7 ∉ oid_of <$> operators Sample.nested) /\
  (bson Sample.pack Sample.nested Sample.Account {[ 7 := Sample.flat_partial ]}).2
    !! 7 = Some Sample.flat_partial /\
  cached ({[ 1 := Sample.both_User ]} : gmap nat (@Bson string)) 1
    = Some Sample.both_User /\
  (bson Sample.pack Sample.nested Sample.Account {[ 1 := Sample.both_User ]}).2
    !! 1 = Some Sample.both_User.
Proof.
  assert (Hout : 7 ∉ oid_of <$> operators Sample.nested)
    by (by apply (bool_decide_unpack _)).
  assert (Hc : cached ({[ 1 := Sample.both_User ]} : gmap nat (@Bson string)) 1
               = Some Sample.both_User) by reflexivity.
  split; [exact Hout|]. split.
  - etransitivity;
      [exact (proj1 (bson_footprint Sample.pack Sample.Account Sample.nested
                       {[ 7 := Sample.flat_partial ]} 7) Hout)
      |reflexivity].
  - split; [exact Hc|].
    etransitivity;
      [exact (proj2 (bson_footprint Sample.pack Sample.Account Sample.nested
                       {[ 1 := Sample.both_User ]} 1) _ Hc)
      |reflexivity].
Defined.

Lemma bson_fragment_count_witness :
  [PQ Sample.cmp1; Other; PQ Sample.cmp2] ≠ [] /\
  cached (∅ : gmap nat (@Bson string)) 0 = None /\
  bson Sample.pack (Node 0 AND [PQ Sample.cmp1; Other; PQ Sample.cmp2])
       Sample.User ∅
    = (Ok Sample.both_User, Sample.after_both) /\
  exists frags,
    Sample.both_User = combined AND frags /\
    length frags = length (List.filter appends [PQ Sample.cmp1; Other; PQ Sample.cmp2]).
Proof.
  assert (Hne : [PQ Sample.cmp1; Other; PQ Sample.cmp2] ≠ []) by discriminate.
  assert (Hc : cached (∅ : gmap nat (@Bson string)) 0 = None) by reflexivity.
  assert (Hrun : bson Sample.pack
                   (Node 0 AND [PQ Sample.cmp1; Other; PQ Sample.cmp2])
                   Sample.User ∅
                 = (Ok Sample.both_User, Sample.after_both)) by reflexivity.
  split; [exact Hne|]. split; [exact Hc|]. split; [exact Hrun|].
  exact (bson_fragment_count Sample.pack Sample.User 0 AND _ ∅ _ _ Hne Hc Hrun).
Defined.



(** [Query(User, AND(cmp1, cmp3))] raises; the same construction again
    queries with [{"$and": [{"email": ...}]}] and gets its one match. *)
Lemma Query_init_after_failure_witness :
  Query_init Sample.pack Sample.find_sized Sample.User Sample.flat ∅
    = (Raise (KeyError 3), {[ 0 := Sample.flat_partial ]}) /\
  Query_init Sample.pack Sample.find_sized Sample.User Sample.flat
             {[ 0 := Sample.flat_partial ]}
    = (Ok {| _model := Sample.User; _logic_chain := Sample.flat;
             _query := [ {| _id := 0 |} ] |},
       {[ 0 := Sample.flat_partial ]}).
Proof.
  assert (Hinit : Query_init Sample.pack Sample.find_sized Sample.User Sample.flat ∅
                  = (Raise (KeyError 3), {[ 0 := Sample.flat_partial ]}))
    by reflexivity.
  split; [exact Hinit|].
  destruct (Query_init_after_failure Sample.pack Sample.find_sized
              Sample.User Sample.User 0 AND [PQ Sample.cmp1; PQ Sample.cmp3]
              ∅ _ _ Hinit)
    as (before & failing & after & partial & σm & _ & _ & _ & _ & Hstore & Hagain).
  assert (Hpartial : combined AND partial = Sample.flat_partial).
  { change (Some Sample.flat_partial = Some (combined AND partial)) in Hstore.
    by inversion Hstore. }
  rewrite Hpartial in Hagain. exact Hagain.
Defined.

Lemma bson_first_compilation_fails_fast_witness :
  sharing_consistent Sample.nested /\
  (forall m, m ∈ operators Sample.nested ->
             (∅ : gmap nat (@Bson string)) !! oid_of m = None) /\
  Sample.cmp3 ∈ queries Sample.nested /\
  attr_map Sample.User !! property Sample.cmp3 = None /\
  (exists e σ', bson Sample.pack Sample.nested Sample.User ∅ = (Raise e, σ')) /\
  bson Sample.pack Sample.nested Sample.User ∅
    = (Raise (KeyError 3),
       <[ 1 := BDoc [("$or", BArr [BDoc [("age", BDoc [("$lt", BVal "packed:25")])]])] ]>
         {[ 0 := Sample.flat_partial ]}).
Proof.
  assert (Hs : sharing_consistent Sample.nested).
  { apply distinct_oids_consistent. by apply (bool_decide_unpack _). }
  assert (Hf : forall m, m ∈ operators Sample.nested ->
                         (∅ : gmap nat (@Bson string)) !! oid_of m = None)
    by (intros m _; apply lookup_empty).
  assert (Hq : Sample.cmp3 ∈ queries Sample.nested).
  { simpl. do 2 apply list_elem_of_further. apply list_elem_of_here. }
  assert (Hnone : attr_map Sample.User !! property Sample.cmp3 = None)
    by reflexivity.
  split; [exact Hs|]. split; [exact Hf|]. split; [exact Hq|].
  split; [exact Hnone|]. split; [|reflexivity].
  exact (proj2 (bson_first_compilation_fails_fast Sample.pack Sample.User
                  Sample.nested ∅ Hs Hf) Sample.cmp3 Hq Hnone).
Defined.

